(** * Envelope framing of the Cosori kettle BLE protocol

    A shallow embedding of [components/cosori_kettle_ble/envelope.h] and
    [envelope.cpp]: the 6-byte frame header, the header checksum and the
    splitting of a packet into BLE write chunks.

    Conventions.
    - A [uint8_t] is a [Z] in [0, 256), a [uint16_t] a [Z] in [0, 65536) and
      a [size_t] a non-negative [Z]; every implicit narrowing conversion of
      the C++ code is written out with [to_uint8] / [to_uint16].
    - A [std::vector<uint8_t>] is a [list Z]; [push_back] appends at the end.
    - The pair [(const uint8_t *payload, size_t payload_len)] is modelled as
      [(option (list Z), Z)]: [None] is [nullptr], [Some buf] is a pointer
      to memory whose readable bytes are [buf].  Reading [payload_len] bytes
      from the pointer is defined only when [payload_len <= length buf].
    - [packet.reserve] changes the capacity of the vector only and is not
      modelled. *)

From Stdlib Require Import ZArith List Lia Arith.
From Equations Require Import Equations.
Import ListNotations.

Module Envelope.

Local Open Scope Z_scope.

(** ** Integer types *)

Definition to_uint8 (z : Z) : Z := z mod 256.
Definition to_uint16 (z : Z) : Z := z mod 65536.

Definition is_uint8 (z : Z) : Prop := 0 <= z < 256.

(** ** Constants *)

(** [static constexpr uint8_t FRAME_MAGIC = 0xA5;] *)
Definition FRAME_MAGIC : Z := 0xA5.

(** [static constexpr size_t BLE_CHUNK_SIZE = 20;] (BLE characteristic write
    limit).  It only ever serves as a vector index or size. *)
Definition BLE_CHUNK_SIZE : nat := 20.

(** ** [Envelope::calculate_checksum]

    The operands are promoted to [int]; the sum is at most [5 * 255], so no
    wrap-around happens before the final mask. *)
Definition calculate_checksum (frame_type seq payload_len : Z) : Z :=
  Z.land (FRAME_MAGIC + frame_type + seq
          + Z.land payload_len 0xFF
          + Z.land (Z.shiftr payload_len 8) 0xFF) 0xFF.

(** ** [Envelope::build] *)

Definition push_back {A : Type} (v : list A) (x : A) : list A := v ++ [x].

Definition build (frame_type seq : Z) (payload : option (list Z))
    (payload_len : Z) : list Z :=
  let packet := [] in
  (* Header: magic, type, seq, len_lo, len_hi, checksum *)
  let packet := push_back packet FRAME_MAGIC in
  let packet := push_back packet frame_type in
  let packet := push_back packet seq in
  let packet := push_back packet (to_uint8 (Z.land payload_len 0xFF)) in
  let packet :=
    push_back packet (to_uint8 (Z.land (Z.shiftr payload_len 8) 0xFF)) in
  let packet :=
    push_back packet
      (calculate_checksum frame_type seq (to_uint16 payload_len)) in
  (* Append payload *)
  match payload with
  | Some buf =>
      if 0 <? payload_len
      then packet ++ firstn (Z.to_nat payload_len) buf
      else packet
  | None => packet
  end.

(** ** [Envelope::chunk]

    The [for] loop over the index [i]; [chunks] is the vector built so far.
    The slice [packet.begin() + i .. packet.begin() + i + chunk_size] is
    [firstn chunk_size (skipn i packet)].  The index is a [size_t]; it stays
    below [packet.size() + BLE_CHUNK_SIZE] and therefore never wraps for a
    vector that fits in memory. *)

Local Open Scope nat_scope.

Equations? chunk_loop (packet : list Z) (i : nat) (chunks : list (list Z))
  : list (list Z) by wf (length packet - i) lt :=
  chunk_loop packet i chunks with lt_dec i (length packet) := {
    | left _ =>
        let chunk_size :=
          if i + BLE_CHUNK_SIZE <=? length packet
          then BLE_CHUNK_SIZE
          else length packet - i in
        let chunk := firstn chunk_size (skipn i packet) in
        chunk_loop packet (i + BLE_CHUNK_SIZE) (push_back chunks chunk);
    | right _ => chunks }.
Proof. unfold BLE_CHUNK_SIZE. lia. Qed.

Definition chunk (packet : list Z) : list (list Z) :=
  let chunks := [] in
  match packet with
  | [] => chunks
  | _ :: _ => chunk_loop packet 0 chunks
  end.

End Envelope.

Import Envelope.

(** * Reading a frame

    The header layout is the one of the comment in [Envelope::build]:
    magic, type, seq, len_lo, len_hi, checksum. *)

Local Open Scope Z_scope.

Definition byte_at (frame : list Z) (i : nat) : Z := nth i frame 0.

Definition frame_magic (frame : list Z) : Z := byte_at frame 0.
Definition frame_type_of (frame : list Z) : Z := byte_at frame 1.
Definition frame_seq (frame : list Z) : Z := byte_at frame 2.
Definition frame_len_lo (frame : list Z) : Z := byte_at frame 3.
Definition frame_len_hi (frame : list Z) : Z := byte_at frame 4.
Definition frame_checksum (frame : list Z) : Z := byte_at frame 5.

(** The 16-bit length field, decoded little-endian. *)
Definition frame_length (frame : list Z) : Z :=
  frame_len_lo frame + 256 * frame_len_hi frame.

Definition frame_header (frame : list Z) : list Z := firstn 6 frame.
Definition frame_payload (frame : list Z) : list Z := skipn 6 frame.

(** The frame invariant of the data model:
    [length == payload.size()]. *)
Definition length_matches_payload (frame : list Z) : Prop :=
  frame_length frame = Z.of_nat (length (frame_payload frame)).

Definition sum_bytes (bytes : list Z) : Z := fold_right Z.add 0 bytes.

(** The additive checksum as the specification words it for [checksum_v0]:
    the sum of all header and payload bytes modulo 256, the checksum byte
    itself left out. *)
Definition additive_sum_all_bytes (frame : list Z) : Z :=
  (sum_bytes (firstn 5 frame) + sum_bytes (frame_payload frame)) mod 256.

(** The bytes [Envelope::build] appends after the header. *)
Definition appended (payload : option (list Z)) (payload_len : Z) : list Z :=
  match payload with
  | Some buf =>
      if 0 <? payload_len then firstn (Z.to_nat payload_len) buf else []
  | None => []
  end.

Local Open Scope nat_scope.

(** The slice taken at index [i], as the body of the loop computes it. *)
Definition slice_at (packet : list Z) (i : nat) : list Z :=
  firstn (if i + BLE_CHUNK_SIZE <=? length packet
          then BLE_CHUNK_SIZE else length packet - i) (skipn i packet).

(** What the loop guarantees of every slice it appends. *)
Definition slice_ok (s : list Z) : Prop :=
  1 <= length s <= BLE_CHUNK_SIZE.

(** The ceiling of [a / b]. *)
Definition ceil_div (a b : nat) : nat := (a + b - 1) / b.

(** * Sample data *)

Local Open Scope Z_scope.

(** Payload of the captured "set mytemp to 179" write,
    [A522 1C05 00CD 01F3 A300 B3]. *)
Definition set_mytemp_179 : list Z := [0x01; 0xF3; 0xA3; 0x00; 0xB3].

(** A buffer of [n] zero bytes, and the bytes [0, 1, ..., n - 1]. *)
Definition zeros (n : Z) : list Z := repeat 0 (Z.to_nat n).
Definition ramp (n : nat) : list Z := map Z.of_nat (seq 0 n).

(** * Bit-level facts *)

Section Bits.

Lemma land_0xFF (z : Z) : Z.land z 0xFF = z mod 256.
Proof. change 0xFF with (Z.ones 8). now rewrite Z.land_ones. Qed.

Lemma shiftr_8 (z : Z) : Z.shiftr z 8 = z / 256.
Proof. now rewrite Z.shiftr_div_pow2. Qed.

Lemma len_lo_value (n : Z) : to_uint8 (Z.land n 0xFF) = n mod 256.
Proof.
  unfold to_uint8. rewrite land_0xFF. apply Z.mod_mod. discriminate.
Qed.

Lemma len_hi_value (n : Z) :
  to_uint8 (Z.land (Z.shiftr n 8) 0xFF) = (n / 256) mod 256.
Proof.
  unfold to_uint8. rewrite land_0xFF, shiftr_8. apply Z.mod_mod. discriminate.
Qed.

Lemma little_endian_uint16 (n : Z) :
  n mod 256 + 256 * ((n / 256) mod 256) = n mod 65536.
Proof.
  change 65536 with (256 * 256).
  rewrite Z.rem_mul_r by lia. reflexivity.
Qed.

Lemma uint16_lo (n : Z) : (n mod 65536) mod 256 = n mod 256.
Proof.
  apply Z.mod_mod_divide. exists 256. reflexivity.
Qed.

Lemma uint16_hi (n : Z) : ((n mod 65536) / 256) mod 256 = (n / 256) mod 256.
Proof.
  pose proof (little_endian_uint16 n) as H.
  pose proof (little_endian_uint16 (n mod 65536)) as H'.
  rewrite uint16_lo, Z.mod_mod in H' by discriminate.
  lia.
Qed.

Lemma calculate_checksum_sum (frame_type seq n : Z) :
  calculate_checksum frame_type seq n =
  (FRAME_MAGIC + frame_type + seq + n mod 256 + (n / 256) mod 256) mod 256.
Proof.
  unfold calculate_checksum. now rewrite !land_0xFF, shiftr_8.
Qed.

Lemma calculate_checksum_uint16 (frame_type seq n : Z) :
  calculate_checksum frame_type seq (to_uint16 n) =
  calculate_checksum frame_type seq n.
Proof.
  rewrite !calculate_checksum_sum. unfold to_uint16.
  now rewrite uint16_lo, uint16_hi.
Qed.

Lemma calculate_checksum_range (frame_type seq n : Z) :
  is_uint8 (calculate_checksum frame_type seq n).
Proof.
  rewrite calculate_checksum_sum. apply Z.mod_pos_bound. reflexivity.
Qed.

End Bits.

(** * The shape of a built frame *)

Section Build.

Variables frame_type seq : Z.

Lemma build_unfold (payload : option (list Z)) (n : Z) :
  build frame_type seq payload n =
  [FRAME_MAGIC; frame_type; seq; n mod 256; (n / 256) mod 256;
   calculate_checksum frame_type seq (to_uint16 n)] ++ appended payload n.
Proof.
  unfold build, push_back, appended. rewrite len_lo_value, len_hi_value.
  destruct payload as [buf|]; [destruct (0 <? n)|]; cbn [app];
    now rewrite ?app_nil_r.
Qed.

Lemma appended_whole (buf : list Z) :
  appended (Some buf) (Z.of_nat (length buf)) = buf.
Proof.
  unfold appended. destruct buf as [|b buf]; [reflexivity|].
  replace (0 <? Z.of_nat (length (b :: buf))) with true
    by (symmetry; apply Z.ltb_lt; cbn [length]; lia).
  rewrite Nat2Z.id. apply firstn_all.
Qed.

Lemma build_frame_length (payload : option (list Z)) (n : Z) :
  frame_length (build frame_type seq payload n) = n mod 65536.
Proof.
  rewrite build_unfold. cbn. apply little_endian_uint16.
Qed.

Lemma build_frame_payload (payload : option (list Z)) (n : Z) :
  frame_payload (build frame_type seq payload n) = appended payload n.
Proof. rewrite build_unfold. reflexivity. Qed.

Lemma build_frame_header (payload : option (list Z)) (n : Z) :
  frame_header (build frame_type seq payload n) =
  [FRAME_MAGIC; frame_type; seq; n mod 256; (n / 256) mod 256;
   calculate_checksum frame_type seq (to_uint16 n)].
Proof. rewrite build_unfold. reflexivity. Qed.

End Build.

(** * The chunking loop *)

Section Chunk.

Local Open Scope nat_scope.

Lemma slice_then_rest (packet : list Z) (i : nat) :
  i < length packet ->
  slice_at packet i ++ skipn (i + BLE_CHUNK_SIZE) packet = skipn i packet.
Proof.
  intros Hi. unfold slice_at. destruct (Nat.leb_spec (i + BLE_CHUNK_SIZE) (length packet)).
  - rewrite (Nat.add_comm i), <- skipn_skipn. apply firstn_skipn.
  - rewrite (skipn_all2 (n := i + BLE_CHUNK_SIZE)) by lia.
    rewrite firstn_all2 by (rewrite length_skipn; lia).
    apply app_nil_r.
Qed.

Lemma slice_length (packet : list Z) (i : nat) :
  i < length packet ->
  length (slice_at packet i) = Nat.min BLE_CHUNK_SIZE (length packet - i).
Proof.
  intros Hi. unfold slice_at. rewrite length_firstn, length_skipn.
  destruct (Nat.leb_spec (i + BLE_CHUNK_SIZE) (length packet)); lia.
Qed.

(** One turn of the loop, and its exit. *)
Lemma chunk_loop_step (packet : list Z) (i : nat) (chunks : list (list Z)) :
  i < length packet ->
  chunk_loop packet i chunks =
  chunk_loop packet (i + BLE_CHUNK_SIZE) (push_back chunks (slice_at packet i)).
Proof.
  intros Hi. rewrite chunk_loop_equation_1 at 1.
  destruct (lt_dec i (length packet)) as [Hlt|Hge]; [reflexivity | lia].
Qed.

Lemma chunk_loop_done (packet : list Z) (i : nat) (chunks : list (list Z)) :
  length packet <= i -> chunk_loop packet i chunks = chunks.
Proof.
  intros Hi. rewrite chunk_loop_equation_1.
  destruct (lt_dec i (length packet)) as [Hlt|Hge]; [lia | reflexivity].
Qed.

Lemma chunk_loop_concat (packet : list Z) (i : nat) (chunks : list (list Z)) :
  concat (chunk_loop packet i chunks) = concat chunks ++ skipn i packet.
Proof.
  funelim (chunk_loop packet i chunks).
  - match goal with IH : concat _ = _ |- _ => rewrite IH end.
    fold (slice_at packet i). unfold push_back. rewrite concat_app. cbn [concat].
    rewrite app_nil_r, <- app_assoc. f_equal.
    now apply (slice_then_rest packet i).
  - rewrite skipn_all2 by lia. now rewrite app_nil_r.
Qed.

Lemma chunk_loop_slices (packet : list Z) (i : nat) (chunks : list (list Z)) :
  Forall slice_ok chunks -> Forall slice_ok (chunk_loop packet i chunks).
Proof.
  funelim (chunk_loop packet i chunks); intros Hacc; [|exact Hacc].
  match goal with IH : _ -> Forall _ _ |- _ => apply IH end.
  fold (slice_at packet i). unfold push_back. apply Forall_app. split; [exact Hacc|].
  constructor; [|constructor].
  unfold slice_ok. rewrite (slice_length packet i) by assumption.
  unfold BLE_CHUNK_SIZE. lia.
Qed.

Lemma ceil_div_step (x : nat) :
  0 < x ->
  ceil_div x BLE_CHUNK_SIZE = S (ceil_div (x - BLE_CHUNK_SIZE) BLE_CHUNK_SIZE).
Proof.
  unfold ceil_div, BLE_CHUNK_SIZE. intros Hx.
  destruct (Nat.le_gt_cases 20 x) as [Hge|Hlt].
  - replace (x + 20 - 1) with (x - 20 + 20 - 1 + 1 * 20) by lia.
    rewrite Nat.div_add by discriminate. lia.
  - replace (x - 20) with 0 by lia. cbn [Nat.add Nat.sub].
    rewrite (Nat.div_small 19 20) by lia.
    replace (x + 20 - 1) with (x - 1 + 1 * 20) by lia.
    rewrite Nat.div_add by discriminate.
    rewrite Nat.div_small by lia. reflexivity.
Qed.

Lemma chunk_loop_count (packet : list Z) (i : nat) (chunks : list (list Z)) :
  length (chunk_loop packet i chunks) =
  length chunks + ceil_div (length packet - i) BLE_CHUNK_SIZE.
Proof.
  funelim (chunk_loop packet i chunks).
  - match goal with IH : length _ = _ |- _ => rewrite IH end.
    unfold push_back. rewrite length_app. cbn [length].
    rewrite (ceil_div_step (length packet - i)) by lia.
    replace (length packet - (i + BLE_CHUNK_SIZE))
      with (length packet - i - BLE_CHUNK_SIZE) by lia.
    lia.
  - replace (length packet - i) with 0 by lia.
    unfold ceil_div, BLE_CHUNK_SIZE. cbn. lia.
Qed.

(** [chunk] itself: the early return on the empty packet agrees with the
    loop, which would not run at all. *)
Lemma chunk_is_loop (packet : list Z) : chunk packet = chunk_loop packet 0 [].
Proof.
  destruct packet; [|reflexivity].
  cbn [chunk]. now rewrite chunk_loop_done.
Qed.

Lemma chunk_concat (packet : list Z) : concat (chunk packet) = packet.
Proof. rewrite chunk_is_loop, chunk_loop_concat. reflexivity. Qed.

Lemma chunk_slices (packet : list Z) : Forall slice_ok (chunk packet).
Proof. rewrite chunk_is_loop. apply chunk_loop_slices. constructor. Qed.

Lemma chunk_count (packet : list Z) :
  length (chunk packet) = ceil_div (length packet) BLE_CHUNK_SIZE.
Proof.
  rewrite chunk_is_loop, chunk_loop_count. now rewrite Nat.sub_0_r.
Qed.

(** [ceil_div] is the ceiling of the quotient. *)
Lemma ceil_div_bounds (x : nat) :
  x <= BLE_CHUNK_SIZE * ceil_div x BLE_CHUNK_SIZE < x + BLE_CHUNK_SIZE.
Proof.
  unfold ceil_div, BLE_CHUNK_SIZE.
  pose proof (Nat.div_mod_eq (x + 20 - 1) 20) as E.
  pose proof (Nat.mod_upper_bound (x + 20 - 1) 20) as B.
  lia.
Qed.

(** The loop only ever appends to what it was given. *)
Lemma chunk_loop_acc (packet : list Z) (i : nat) (chunks acc : list (list Z)) :
  chunk_loop packet i (acc ++ chunks) = acc ++ chunk_loop packet i chunks.
Proof.
  revert acc. funelim (chunk_loop packet i chunks); intros acc.
  - rewrite chunk_loop_step by assumption.
    unfold push_back in *. rewrite <- app_assoc.
    match goal with IH : forall _, _ = _ |- _ => apply IH end.
  - now rewrite chunk_loop_done by lia.
Qed.

Lemma chunk_loop_cons (packet : list Z) (i : nat) :
  i < length packet ->
  chunk_loop packet i [] =
  slice_at packet i :: chunk_loop packet (i + BLE_CHUNK_SIZE) [].
Proof.
  intros Hi. rewrite chunk_loop_step by assumption.
  unfold push_back. cbn [app].
  now rewrite <- (app_nil_r [slice_at packet i]), chunk_loop_acc.
Qed.

(** A slice is a window of [BLE_CHUNK_SIZE] bytes, cut short by the end of
    the packet. *)
Lemma slice_at_window (packet : list Z) (i : nat) :
  slice_at packet i = firstn BLE_CHUNK_SIZE (skipn i packet).
Proof.
  unfold slice_at.
  destruct (Nat.leb_spec (i + BLE_CHUNK_SIZE) (length packet)); [reflexivity|].
  rewrite !firstn_all2; [reflexivity | |]; rewrite length_skipn; lia.
Qed.

Lemma chunk_loop_nth (packet : list Z) (k i : nat) :
  nth k (chunk_loop packet i []) [] =
  firstn BLE_CHUNK_SIZE (skipn (i + k * BLE_CHUNK_SIZE) packet).
Proof.
  revert i. induction k as [|k IH]; intros i;
    destruct (Nat.lt_ge_cases i (length packet)) as [Hlt|Hge].
  - rewrite chunk_loop_cons by assumption. cbn [nth Nat.mul].
    now rewrite Nat.add_0_r, slice_at_window.
  - rewrite chunk_loop_done by assumption.
    rewrite skipn_all2 by lia. now rewrite firstn_nil.
  - rewrite chunk_loop_cons by assumption. cbn [nth]. rewrite IH.
    do 2 f_equal. lia.
  - rewrite chunk_loop_done by assumption.
    rewrite skipn_all2 by lia. now rewrite firstn_nil.
Qed.

Lemma chunk_nth (packet : list Z) (k : nat) :
  nth k (chunk packet) [] =
  firstn BLE_CHUNK_SIZE (skipn (k * BLE_CHUNK_SIZE) packet).
Proof. rewrite chunk_is_loop. apply chunk_loop_nth. Qed.

End Chunk.

(** * Buffers and byte ranges *)

Lemma zeros_length (n : Z) : 0 <= n -> Z.of_nat (length (zeros n)) = n.
Proof. intros Hn. unfold zeros. rewrite repeat_length. now apply Z2Nat.id. Qed.

(** X13: a frame built from bytes consists of bytes: the two length bytes
    and the checksum are in range whatever the payload size. *)
Lemma build_bytes (frame_type seq : Z) (payload : list Z) :
  is_uint8 frame_type -> is_uint8 seq -> Forall is_uint8 payload ->
  Forall is_uint8
    (build frame_type seq (Some payload) (Z.of_nat (length payload))).
Proof.
  intros Ht Hs Hp. rewrite build_unfold, appended_whole. cbn [app].
  repeat apply Forall_cons; try assumption.
  - unfold is_uint8, FRAME_MAGIC. lia.
  - apply Z.mod_pos_bound. reflexivity.
  - apply Z.mod_pos_bound. reflexivity.
  - apply calculate_checksum_range.
Qed.

(** X13 at the captured frame. *)
Lemma build_bytes_witness :
  Forall is_uint8 set_mytemp_179 /\
  Forall is_uint8 (build 0x22 0x1C (Some set_mytemp_179) 5).
Proof.
  assert (Hp : Forall is_uint8 set_mytemp_179)
    by (repeat apply Forall_cons; try apply Forall_nil; unfold is_uint8; lia).
  split; [exact Hp|].
  apply (build_bytes 0x22 0x1C set_mytemp_179);
    [unfold is_uint8; lia | unfold is_uint8; lia | exact Hp].
Defined.

(** * The header checksum *)

(** C1, as stated: for the sample frame (type 0x22, sequence 0x1C, length 5)
    [calculate_checksum] would produce 0xCD.  It does not. *)
Lemma sample_checksum_is_not_0xCD :
  calculate_checksum 0x22 0x1C 5 <> 0xCD /\
  frame_checksum (build 0x22 0x1C (Some set_mytemp_179) 5) <> 0xCD.
Proof. split; vm_compute; discriminate. Qed.

(** C1, amended: for frame type 0x22, sequence 0x1C and length 5,
    [calculate_checksum] produces 0xE8, the sum of the five header bytes
    modulo 256, and that is the checksum byte [build] stores for the sample
    payload. *)
Theorem sample_checksum_is_0xE8 :
  calculate_checksum 0x22 0x1C 5 = 0xE8 /\
  build 0x22 0x1C (Some set_mytemp_179) 5 =
  [0xA5; 0x22; 0x1C; 0x05; 0x00; 0xE8; 0x01; 0xF3; 0xA3; 0x00; 0xB3].
Proof. split; reflexivity. Qed.

(** C2, as stated: the checksum would be the sum of all header and payload
    bytes modulo 256 and so depend on the payload bytes.  On the sample frame
    the stored checksum differs from that sum, and two payloads of one length
    with different sums get the same checksum. *)
Lemma checksum_is_not_sum_of_all_bytes :
  (let frame := build 0x22 0x1C (Some set_mytemp_179) 5 in
   frame_checksum frame <> additive_sum_all_bytes frame) /\
  (let frame0 := build 0x22 0x1C (Some [0x00]) 1 in
   let frame1 := build 0x22 0x1C (Some [0x01]) 1 in
   frame_checksum frame0 = frame_checksum frame1 /\
   additive_sum_all_bytes frame0 <> additive_sum_all_bytes frame1).
Proof. repeat split; vm_compute; discriminate. Qed.

(** C2, amended: [calculate_checksum] is the sum of the five header bytes
    (magic, frame type, sequence, length low, length high) modulo 256; the
    checksum byte of a built frame is the sum of the five bytes before it
    modulo 256 and does not depend on the payload bytes. *)
Theorem checksum_is_header_sum (frame_type seq : Z)
    (payload payload' : option (list Z)) (payload_len : Z) :
  let frame := build frame_type seq payload payload_len in
  calculate_checksum frame_type seq payload_len =
    sum_bytes [FRAME_MAGIC; frame_type; seq;
               payload_len mod 256; (payload_len / 256) mod 256] mod 256 /\
  frame_checksum frame = sum_bytes (firstn 5 frame) mod 256 /\
  frame_checksum (build frame_type seq payload' payload_len) =
    frame_checksum frame.
Proof.
  cbv zeta. rewrite !build_unfold. cbn [app firstn].
  unfold frame_checksum, byte_at. cbn [nth].
  rewrite calculate_checksum_uint16, calculate_checksum_sum.
  unfold sum_bytes. cbn [fold_right].
  split; [f_equal; lia | split; [f_equal; lia | reflexivity]].
Qed.

(** C6: the checksum byte of a built frame is [calculate_checksum] applied
    to the frame's own header fields (with the magic byte in first place),
    and two builds that differ only in the payload contents have the same
    6-byte header. *)
Theorem build_checksum_invariant (frame_type seq : Z)
    (payload payload' : option (list Z)) (payload_len : Z) :
  let frame := build frame_type seq payload payload_len in
  frame_magic frame = FRAME_MAGIC /\
  frame_checksum frame =
    calculate_checksum (frame_type_of frame) (frame_seq frame)
      (frame_length frame) /\
  frame_header (build frame_type seq payload' payload_len) =
    frame_header frame.
Proof.
  cbv zeta. rewrite !build_frame_header, build_frame_length.
  rewrite build_unfold.
  split; [reflexivity | split; reflexivity].
Qed.

(** * The length field and the payload *)

(** C4: [build] returns the header magic 0xA5, frame type, sequence, length
    low byte, length high byte, checksum, followed by the payload bytes in
    order; the two length bytes are the little-endian encoding of the
    payload size (as far as 16 bits hold it).  A null pointer with length 0
    gives the bare header. *)
Theorem build_layout (frame_type seq : Z) (payload : list Z) :
  let n := Z.of_nat (length payload) in
  let len_lo := n mod 256 in
  let len_hi := (n / 256) mod 256 in
  build frame_type seq (Some payload) n =
    [0xA5; frame_type; seq; len_lo; len_hi;
     calculate_checksum frame_type seq (to_uint16 n)] ++ payload /\
  is_uint8 len_lo /\ is_uint8 len_hi /\
  len_lo + 256 * len_hi = to_uint16 n /\
  build frame_type seq None 0 =
    [0xA5; frame_type; seq; 0; 0; calculate_checksum frame_type seq 0].
Proof.
  cbv zeta. rewrite build_unfold, appended_whole.
  split; [reflexivity|].
  split; [apply Z.mod_pos_bound; reflexivity|].
  split; [apply Z.mod_pos_bound; reflexivity|].
  split; [apply little_endian_uint16 | reflexivity].
Qed.

(** C3, as stated: the length field would equal the payload size for every
    payload, and an oversized payload would be rejected.  A payload of 65536
    bytes, more than the 16-bit length field can hold, is framed whole, and
    the length field of the frame is 0. *)
Lemma build_frames_oversized_payload :
  let payload := zeros 65536 in
  let frame := build 0x22 0x1C (Some payload) 65536 in
  Z.of_nat (length payload) = 65536 /\
  frame_payload frame = payload /\
  frame_length frame = 0 /\
  ~ length_matches_payload frame.
Proof.
  cbv zeta.
  assert (Hlen : Z.of_nat (length (zeros 65536)) = 65536)
    by (apply zeros_length; discriminate).
  assert (Hpay : frame_payload (build 0x22 0x1C (Some (zeros 65536)) 65536)
                 = zeros 65536).
  { rewrite build_frame_payload, <- Hlen at 1. apply appended_whole. }
  split; [exact Hlen|]. split; [exact Hpay|].
  split; [now rewrite build_frame_length|].
  unfold length_matches_payload.
  rewrite build_frame_length, Hpay, Hlen. discriminate.
Qed.

(** C3, amended: [build] has no failure path and enforces no maximum: for
    every payload it returns a frame that carries the whole payload, with the
    payload size modulo 65536 in the length field; the length field equals
    the payload size exactly when the payload is shorter than 65536 bytes. *)
Theorem build_length_field (frame_type seq : Z) (payload : list Z) :
  let n := Z.of_nat (length payload) in
  let frame := build frame_type seq (Some payload) n in
  frame_payload frame = payload /\
  frame_length frame = n mod 65536 /\
  (length_matches_payload frame <-> n < 65536).
Proof.
  cbv zeta. unfold length_matches_payload.
  rewrite build_frame_payload, appended_whole, build_frame_length.
  split; [reflexivity|]. split; [reflexivity|].
  pose proof (Z.mod_pos_bound (Z.of_nat (length payload)) 65536 eq_refl).
  split; intros H'.
  - lia.
  - apply Z.mod_small. lia.
Qed.

(** C9: a payload of at least 65536 bytes is not rejected: the frame carries
    it whole, the length field holds the payload size modulo 65536 (low byte
    first), which differs from the size, and the checksum is computed over
    that truncated 16-bit value. *)
Theorem build_truncates_length (frame_type seq : Z) (payload : list Z) :
  65536 <= Z.of_nat (length payload) ->
  let n := Z.of_nat (length payload) in
  let frame := build frame_type seq (Some payload) n in
  frame_payload frame = payload /\
  frame_len_lo frame = (n mod 65536) mod 256 /\
  frame_len_hi frame = (n mod 65536) / 256 /\
  frame_length frame = n mod 65536 /\
  frame_length frame <> n /\
  frame_checksum frame = calculate_checksum frame_type seq (n mod 65536).
Proof.
  intros Hbig. cbv zeta.
  rewrite build_frame_payload, appended_whole, build_frame_length.
  rewrite build_unfold.
  unfold frame_len_lo, frame_len_hi, frame_checksum, byte_at. cbn [app nth].
  pose proof (Z.mod_pos_bound (Z.of_nat (length payload)) 65536 eq_refl) as B.
  split; [reflexivity|].
  split; [now rewrite uint16_lo|].
  split.
  { rewrite <- uint16_hi. apply Z.mod_small.
    split; [apply Z.div_pos; lia | apply Z.div_lt_upper_bound; lia]. }
  split; [reflexivity|]. split; [lia | reflexivity].
Qed.

(** C9 at a payload of 65541 zero bytes: the length field reads 5. *)
Lemma build_truncates_length_witness :
  let payload := zeros 65541 in
  65536 <= Z.of_nat (length payload) /\
  frame_length
    (build 0x22 0x1C (Some payload) (Z.of_nat (length payload))) =
  Z.of_nat (length payload) mod 65536.
Proof.
  cbv zeta.
  assert (Hbig : 65536 <= Z.of_nat (length (zeros 65541)))
    by (rewrite zeros_length; [discriminate | discriminate]).
  split; [exact Hbig|].
  apply (build_truncates_length 0x22 0x1C (zeros 65541) Hbig).
Defined.

(** C8, as stated: every call with a null pointer and a nonzero length would
    give a frame whose length field records [payload_len] and so breaks
    [length == payload.size()].  With [payload_len = 65536] the length field
    is 0, not 65536, and the header-only frame satisfies the invariant. *)
Lemma build_null_payload_length_wraps :
  let frame := build 0x22 0x1C None 65536 in
  frame = [0xA5; 0x22; 0x1C; 0x00; 0x00; 0xE3] /\
  frame_length frame <> 65536 /\
  length_matches_payload frame.
Proof.
  cbv zeta. split; [reflexivity|]. split; [discriminate | reflexivity].
Qed.

(** C8, amended: for every call with a null payload pointer and a
    [payload_len] that is not a multiple of 65536, the returned frame is the
    6-byte header alone, its length field records [payload_len] modulo 65536
    ([payload_len] itself below 65536), and the frame violates
    [length == payload.size()]. *)
Theorem build_null_payload (frame_type seq payload_len : Z) :
  0 < payload_len -> payload_len mod 65536 <> 0 ->
  let frame := build frame_type seq None payload_len in
  frame = frame_header frame /\
  length frame = 6%nat /\
  frame_payload frame = [] /\
  frame_length frame = payload_len mod 65536 /\
  (payload_len < 65536 -> frame_length frame = payload_len) /\
  ~ length_matches_payload frame.
Proof.
  intros Hpos Hmod. cbv zeta. unfold length_matches_payload.
  rewrite build_frame_header, build_frame_payload, build_frame_length.
  rewrite build_unfold. cbn [appended app length].
  split; [reflexivity|]. split; [reflexivity|]. split; [reflexivity|].
  split; [reflexivity|].
  split; [intros Hlt; apply Z.mod_small; lia | exact Hmod].
Qed.

(** C8 at a null pointer with [payload_len = 5]. *)
Lemma build_null_payload_witness :
  let frame := build 0x22 0x1C None 5 in
  frame = [0xA5; 0x22; 0x1C; 0x05; 0x00; 0xE8] /\
  ~ length_matches_payload frame.
Proof.
  cbv zeta. split; [reflexivity|].
  apply (build_null_payload 0x22 0x1C 5); [reflexivity | discriminate].
Defined.

(** * Chunking *)

Section ChunkClaims.

Local Open Scope nat_scope.

(** C5: a packet longer than the chunk size is split into exactly
    ceil(len / chunk size) slices, each of at most chunk-size bytes, whose
    concatenation in order is the packet; slice [k] is the window of the
    packet that starts at byte [k * BLE_CHUNK_SIZE], nothing added. *)
Theorem chunk_pieces (packet : list Z) :
  BLE_CHUNK_SIZE < length packet ->
  length (chunk packet) = ceil_div (length packet) BLE_CHUNK_SIZE /\
  length packet <= BLE_CHUNK_SIZE * length (chunk packet)
    < length packet + BLE_CHUNK_SIZE /\
  Forall (fun s => length s <= BLE_CHUNK_SIZE) (chunk packet) /\
  concat (chunk packet) = packet /\
  (forall k, nth k (chunk packet) [] =
             firstn BLE_CHUNK_SIZE (skipn (k * BLE_CHUNK_SIZE) packet)).
Proof.
  intros _.
  split; [apply chunk_count|].
  split; [rewrite chunk_count; apply ceil_div_bounds|].
  split.
  { eapply Forall_impl; [|apply chunk_slices].
    intros s Hs. apply Hs. }
  split; [apply chunk_concat | apply chunk_nth].
Qed.

(** C5 at the 45-byte packet [0, 1, ..., 44]: three slices. *)
Lemma chunk_pieces_witness :
  BLE_CHUNK_SIZE < length (ramp 45) /\
  length (chunk (ramp 45)) = 3 /\
  concat (chunk (ramp 45)) = ramp 45.
Proof.
  assert (Hlong : BLE_CHUNK_SIZE < length (ramp 45)) by (vm_compute; lia).
  destruct (chunk_pieces (ramp 45) Hlong) as (Hcount & _ & _ & Hcat & _).
  split; [exact Hlong|]. split; [|exact Hcat].
  rewrite Hcount. reflexivity.
Defined.

(** C7, as stated: the chunk size would be a configuration input, the slices
    being at most [c] bytes for every configured size [c].  [chunk] takes no
    such input: with 10 configured, a 20-byte packet still goes out as one
    slice of 20 bytes. *)
Lemma chunk_ignores_configured_size :
  ~ (forall (c : nat) (packet : list Z),
       0 < c -> Forall (fun s => length s <= c) (chunk packet)).
Proof.
  intros H. specialize (H 10 (ramp 20) ltac:(lia)).
  assert (E : chunk (ramp 20) = [ramp 20]) by (vm_compute; reflexivity).
  rewrite E in H. apply Forall_inv in H. vm_compute in H. lia.
Qed.

(** C7, amended: the chunk size used by [chunk] is the compile-time constant
    [BLE_CHUNK_SIZE = 20] of [envelope.h]: every slice has at most 20 bytes,
    and the first slice has exactly 20 as soon as the packet has that many. *)
Theorem chunk_size_is_the_constant (packet : list Z) :
  BLE_CHUNK_SIZE = 20 /\
  Forall (fun s => length s <= 20) (chunk packet) /\
  length (nth 0 (chunk packet) []) = Nat.min 20 (length packet).
Proof.
  split; [reflexivity|]. split.
  - eapply Forall_impl; [|apply chunk_slices].
    intros s Hs. apply Hs.
  - rewrite chunk_nth. cbn [Nat.mul skipn]. apply length_firstn.
Qed.

(** C10: the empty packet gives no chunk at all, a non-empty packet gives at
    least one, and no chunk is ever empty. *)
Theorem chunk_empty_and_nonempty (packet : list Z) :
  chunk [] = [] /\
  (chunk packet = [] <-> packet = []) /\
  Forall (fun s => s <> []) (chunk packet).
Proof.
  split; [reflexivity|]. split; [split|].
  - intros Hnone. rewrite <- (chunk_concat packet), Hnone. reflexivity.
  - intros ->. reflexivity.
  - eapply Forall_impl; [|apply chunk_slices].
    intros s [Hs _] ->. cbn in Hs. lia.
Qed.

End ChunkClaims.

(** * Further properties of [chunk] *)

Section ChunkStructure.

Local Open Scope nat_scope.

(** Starting the loop at index [i] is chunking the packet from byte [i]. *)
Lemma chunk_loop_shift (packet : list Z) (i : nat) :
  chunk_loop packet i [] = chunk (skipn i packet).
Proof.
  apply (nth_ext _ _ [] []).
  - rewrite chunk_loop_count, chunk_count, length_skipn. reflexivity.
  - intros k _. rewrite chunk_loop_nth, chunk_nth, skipn_skipn.
    do 2 f_equal. lia.
Qed.

(** One step of [chunk] on a non-empty packet. *)
Lemma chunk_cons_rest (packet : list Z) :
  packet <> [] ->
  chunk packet =
  firstn BLE_CHUNK_SIZE packet :: chunk (skipn BLE_CHUNK_SIZE packet).
Proof.
  intros Hne. rewrite chunk_is_loop.
  rewrite chunk_loop_cons by (destruct packet; [congruence | cbn; lia]).
  rewrite slice_at_window, chunk_loop_shift. reflexivity.
Qed.

(** A packet within the write limit is its own single chunk. *)
Lemma chunk_fits (packet : list Z) :
  packet <> [] -> length packet <= BLE_CHUNK_SIZE ->
  chunk packet = [packet].
Proof.
  intros Hne Hfit. rewrite chunk_cons_rest by assumption.
  rewrite firstn_all2 by assumption.
  rewrite skipn_all2 by assumption. reflexivity.
Qed.

(** X1: [chunk] is the function that cuts off the first [BLE_CHUNK_SIZE]
    bytes of a non-empty packet and goes on with the rest. *)
Theorem chunk_unfold (packet : list Z) :
  packet <> [] ->
  chunk packet =
  firstn BLE_CHUNK_SIZE packet :: chunk (skipn BLE_CHUNK_SIZE packet).
Proof. exact (chunk_cons_rest packet). Qed.

(** X1 at the 45-byte packet [0, 1, ..., 44]. *)
Lemma chunk_unfold_witness :
  ramp 45 <> [] /\
  chunk (ramp 45) = firstn 20 (ramp 45) :: chunk (skipn 20 (ramp 45)).
Proof.
  assert (Hne : ramp 45 <> []) by (vm_compute; discriminate).
  split; [exact Hne | exact (chunk_unfold (ramp 45) Hne)].
Defined.

(** X2: a non-empty packet that fits the write limit goes out unchanged, as
    one chunk. *)
Theorem chunk_short_packet (packet : list Z) :
  packet <> [] -> length packet <= BLE_CHUNK_SIZE ->
  chunk packet = [packet].
Proof. exact (chunk_fits packet). Qed.

(** X2 at the 11-byte captured frame. *)
Lemma chunk_short_packet_witness :
  let frame := build 0x22 0x1C (Some set_mytemp_179) 5 in
  frame <> [] /\ length frame <= BLE_CHUNK_SIZE /\ chunk frame = [frame].
Proof.
  cbv zeta.
  assert (Hne : build 0x22 0x1C (Some set_mytemp_179) 5 <> [])
    by (vm_compute; discriminate).
  assert (Hfit : length (build 0x22 0x1C (Some set_mytemp_179) 5)
                 <= BLE_CHUNK_SIZE) by (vm_compute; lia).
  split; [exact Hne|]. split; [exact Hfit|].
  exact (chunk_short_packet _ Hne Hfit).
Defined.

(** X3: every chunk but the last is full, and the last one holds the bytes
    that remain, at least one and at most [BLE_CHUNK_SIZE]. *)
Theorem chunk_full_except_last (packet : list Z) (k : nat) :
  k < length (chunk packet) ->
  length (nth k (chunk packet) []) =
    Nat.min BLE_CHUNK_SIZE (length packet - k * BLE_CHUNK_SIZE) /\
  (S k < length (chunk packet) ->
   length (nth k (chunk packet) []) = BLE_CHUNK_SIZE) /\
  (S k = length (chunk packet) ->
   length (nth k (chunk packet) []) = length packet - k * BLE_CHUNK_SIZE /\
   1 <= length packet - k * BLE_CHUNK_SIZE <= BLE_CHUNK_SIZE).
Proof.
  intros Hk.
  assert (Hlen : length (nth k (chunk packet) []) =
                 Nat.min BLE_CHUNK_SIZE (length packet - k * BLE_CHUNK_SIZE))
    by (rewrite chunk_nth, length_firstn, length_skipn; reflexivity).
  pose proof (ceil_div_bounds (length packet)) as B.
  rewrite <- chunk_count in B. unfold BLE_CHUNK_SIZE in *.
  split; [exact Hlen|]. split; intros Hpos; rewrite Hlen.
  - apply Nat.min_l. lia.
  - split; [apply Nat.min_r|]; lia.
Qed.

(** X3 at the second of the three chunks of a 45-byte packet. *)
Lemma chunk_full_except_last_witness :
  1 < length (chunk (ramp 45)) /\
  length (nth 1 (chunk (ramp 45)) []) =
    Nat.min BLE_CHUNK_SIZE (length (ramp 45) - 1 * BLE_CHUNK_SIZE).
Proof.
  assert (Hk : 1 < length (chunk (ramp 45))) by (vm_compute; lia).
  split; [exact Hk|].
  exact (proj1 (chunk_full_except_last (ramp 45) 1 Hk)).
Defined.

(** X4: chunking is compatible with concatenation at a chunk boundary: when
    the first part is a whole number of chunks, the chunks of the whole are
    the chunks of the parts. *)
Theorem chunk_app_aligned (m : nat) (a b : list Z) :
  length a = m * BLE_CHUNK_SIZE ->
  chunk (a ++ b) = chunk a ++ chunk b.
Proof.
  revert a. induction m as [|m IH]; intros a Hlen.
  - destruct a; [reflexivity | discriminate].
  - assert (Ha : a <> []) by (intros ->; discriminate).
    assert (Hab : a ++ b <> []) by (destruct a; [congruence | discriminate]).
    assert (H20 : BLE_CHUNK_SIZE <= length a) by lia.
    rewrite (chunk_cons_rest (a ++ b)), (chunk_cons_rest a) by assumption.
    rewrite firstn_app, skipn_app.
    replace (BLE_CHUNK_SIZE - length a) with 0 by lia.
    cbn [firstn skipn]. rewrite app_nil_r, IH; [reflexivity|].
    rewrite length_skipn, Hlen. lia.
Qed.

(** X4 with a first part of one full chunk. *)
Lemma chunk_app_aligned_witness :
  length (ramp 20) = 1 * BLE_CHUNK_SIZE /\
  chunk (ramp 20 ++ ramp 7) = chunk (ramp 20) ++ chunk (ramp 7).
Proof.
  assert (Hlen : length (ramp 20) = 1 * BLE_CHUNK_SIZE) by reflexivity.
  split; [exact Hlen | exact (chunk_app_aligned 1 (ramp 20) (ramp 7) Hlen)].
Defined.

(** X5: chunking again what [chunk] returned changes nothing: every chunk is
    its own single chunk. *)
Theorem chunk_of_chunks (packet : list Z) :
  Forall (fun s => chunk s = [s]) (chunk packet) /\
  concat (map chunk (chunk packet)) = chunk packet.
Proof.
  assert (Hall : Forall (fun s => chunk s = [s]) (chunk packet)).
  { eapply Forall_impl; [|apply chunk_slices].
    intros s [Hpos Hfit]. apply chunk_fits; [|exact Hfit].
    intros ->. cbn in Hpos. lia. }
  split; [exact Hall|].
  induction Hall as [|s l Hs _ IH]; [reflexivity|].
  cbn [map concat]. now rewrite Hs, IH.
Qed.

End ChunkStructure.

(** * Further properties of [build] and of [calculate_checksum] *)

Section BuildStructure.

Local Open Scope Z_scope.

(** X6: [build] loses nothing: two calls that return the same frame were
    given the same frame type, sequence number and payload. *)
Theorem build_injective (frame_type seq frame_type' seq' : Z)
    (payload payload' : list Z) :
  build frame_type seq (Some payload) (Z.of_nat (length payload)) =
  build frame_type' seq' (Some payload') (Z.of_nat (length payload')) ->
  frame_type = frame_type' /\ seq = seq' /\ payload = payload'.
Proof.
  rewrite !build_unfold, !appended_whole. cbn [app].
  intros H. injection H. intros. repeat split; assumption.
Qed.

(** X6 at the captured frame. *)
Lemma build_injective_witness :
  0x22 = 0x22 /\ 0x1C = 0x1C /\ set_mytemp_179 = set_mytemp_179.
Proof.
  exact (build_injective 0x22 0x1C 0x22 0x1C set_mytemp_179 set_mytemp_179
           eq_refl).
Defined.

(** X7: [build] reads [payload_len] bytes from the pointer and no more:
    whatever follows them in memory has no effect on the frame. *)
Theorem build_reads_payload_len_bytes (frame_type seq : Z)
    (payload rest : list Z) :
  build frame_type seq (Some (payload ++ rest)) (Z.of_nat (length payload)) =
  build frame_type seq (Some payload) (Z.of_nat (length payload)).
Proof.
  rewrite !build_unfold. f_equal. unfold appended.
  destruct (0 <? Z.of_nat (length payload)); [|reflexivity].
  rewrite Nat2Z.id, firstn_app, Nat.sub_diag, firstn_all.
  cbn [firstn]. now rewrite app_nil_r.
Qed.

(** X8: with [payload_len = 0] the pointer is not looked at: the frame is
    the bare header with length field 0 and checksum
    [(0xA5 + frame_type + seq) mod 256]; it satisfies
    [length == payload.size()] and goes out as a single chunk. *)
Theorem build_zero_length (frame_type seq : Z) (payload : option (list Z)) :
  let frame := build frame_type seq payload 0 in
  frame = [0xA5; frame_type; seq; 0; 0; (0xA5 + frame_type + seq) mod 256] /\
  length_matches_payload frame /\
  chunk frame = [frame].
Proof.
  cbv zeta.
  assert (E : build frame_type seq payload 0 =
              [0xA5; frame_type; seq; 0; 0;
               (0xA5 + frame_type + seq) mod 256]).
  { rewrite build_unfold, calculate_checksum_uint16, calculate_checksum_sum.
    replace (appended payload 0) with (@nil Z)
      by (destruct payload; reflexivity).
    cbn [app]. unfold FRAME_MAGIC.
    change (0 mod 256) with 0. change ((0 / 256) mod 256) with 0.
    now rewrite !Z.add_0_r. }
  rewrite E. split; [reflexivity|]. split; [reflexivity|].
  apply chunk_fits; [discriminate | unfold BLE_CHUNK_SIZE; cbn; lia].
Qed.

(** X9: the chunks of a built frame: there are ceil((6 + n) / 20) of them,
    at least one, and the 6-byte header is never split: the first chunk is
    the whole header followed by the first 14 payload bytes. *)
Theorem chunk_build_header_unsplit (frame_type seq : Z) (payload : list Z) :
  let frame := build frame_type seq (Some payload)
                 (Z.of_nat (length payload)) in
  length frame = (6 + length payload)%nat /\
  length (chunk frame) = ceil_div (6 + length payload) BLE_CHUNK_SIZE /\
  chunk frame <> [] /\
  nth 0 (chunk frame) [] = frame_header frame ++ firstn 14 payload.
Proof.
  cbv zeta. rewrite build_frame_header.
  assert (Hlen : length (build frame_type seq (Some payload)
                           (Z.of_nat (length payload)))
                 = (6 + length payload)%nat)
    by (rewrite build_unfold, appended_whole; reflexivity).
  split; [exact Hlen|].
  split; [now rewrite chunk_count, Hlen|].
  split.
  - intros Hnone. apply (f_equal (@length _)) in Hnone.
    rewrite chunk_count, Hlen in Hnone.
    pose proof (ceil_div_bounds (6 + length payload)) as B.
    cbn [length] in Hnone. lia.
  - rewrite chunk_nth, build_unfold, appended_whole. reflexivity.
Qed.

(** X10: sending a frame in chunks loses nothing: the chunks put together
    in order are the frame, from which frame type, sequence number and
    payload are read back. *)
Theorem chunk_build_round_trip (frame_type seq : Z) (payload : list Z) :
  let received :=
    concat (chunk (build frame_type seq (Some payload)
                     (Z.of_nat (length payload)))) in
  frame_magic received = FRAME_MAGIC /\
  frame_type_of received = frame_type /\
  frame_seq received = seq /\
  frame_payload received = payload /\
  frame_checksum received =
    calculate_checksum frame_type seq (frame_length received).
Proof.
  cbv zeta. rewrite chunk_concat, build_frame_length.
  rewrite build_unfold, appended_whole.
  repeat (split; [reflexivity|]). reflexivity.
Qed.

(** X11: the checksum notices every change of a single header byte: frame
    type, sequence number, low or high byte of the length. *)
Theorem calculate_checksum_detects_single_change
    (frame_type frame_type' seq seq' n n' : Z) :
  is_uint8 frame_type -> is_uint8 frame_type' ->
  is_uint8 seq -> is_uint8 seq' ->
  0 <= n < 65536 -> 0 <= n' < 65536 ->
  (frame_type <> frame_type' ->
   calculate_checksum frame_type seq n <>
   calculate_checksum frame_type' seq n) /\
  (seq <> seq' ->
   calculate_checksum frame_type seq n <>
   calculate_checksum frame_type seq' n) /\
  (n <> n' -> (n / 256 = n' / 256 \/ n mod 256 = n' mod 256) ->
   calculate_checksum frame_type seq n <>
   calculate_checksum frame_type seq n').
Proof.
  unfold is_uint8. intros Ht Ht' Hs Hs' Hn Hn'.
  rewrite !calculate_checksum_sum. unfold FRAME_MAGIC.
  assert (Hhi : (n / 256) mod 256 = n / 256)
    by (apply Z.mod_small; split;
        [apply Z.div_pos | apply Z.div_lt_upper_bound]; lia).
  assert (Hhi' : (n' / 256) mod 256 = n' / 256)
    by (apply Z.mod_small; split;
        [apply Z.div_pos | apply Z.div_lt_upper_bound]; lia).
  rewrite Hhi, Hhi'.
  pose proof (Z.div_mod n 256 ltac:(lia)) as En.
  pose proof (Z.div_mod n' 256 ltac:(lia)) as En'.
  pose proof (Z.mod_pos_bound n 256 eq_refl) as Bn.
  pose proof (Z.mod_pos_bound n' 256 eq_refl) as Bn'.
  assert (Bh : 0 <= n / 256 < 256)
    by (split; [apply Z.div_pos | apply Z.div_lt_upper_bound]; lia).
  assert (Bh' : 0 <= n' / 256 < 256)
    by (split; [apply Z.div_pos | apply Z.div_lt_upper_bound]; lia).
  set (lo := n mod 256) in *. set (hi := n / 256) in *.
  set (lo' := n' mod 256) in *. set (hi' := n' / 256) in *.
  split; [|split].
  - intros Hne Heq. apply Hne. clear Hne. Z.div_mod_to_equations. lia.
  - intros Hne Heq. apply Hne. clear Hne. Z.div_mod_to_equations. lia.
  - intros Hne Hsame Heq. apply Hne. clear Hne.
    destruct Hsame as [Hsame|Hsame]; Z.div_mod_to_equations; lia.
Qed.

(** X11 at two consecutive sequence numbers. *)
Lemma calculate_checksum_detects_single_change_witness :
  calculate_checksum 0x22 0x1C 5 <> calculate_checksum 0x22 0x1D 5.
Proof.
  apply (calculate_checksum_detects_single_change 0x22 0x22 0x1C 0x1D 5 5);
    unfold is_uint8; try lia.
Defined.

(** X12: what the checksum does not notice: frame type and sequence number
    exchanged, the two bytes of the length exchanged, and anything in the
    length above its low 16 bits. *)
Theorem calculate_checksum_blind_spots (frame_type seq len_lo len_hi n : Z) :
  is_uint8 len_lo -> is_uint8 len_hi ->
  calculate_checksum frame_type seq n = calculate_checksum seq frame_type n /\
  calculate_checksum frame_type seq (len_lo + 256 * len_hi) =
    calculate_checksum frame_type seq (len_hi + 256 * len_lo) /\
  calculate_checksum frame_type seq (n + 65536) =
    calculate_checksum frame_type seq n.
Proof.
  unfold is_uint8. intros Hlo Hhi.
  assert (Hbytes : forall a b, 0 <= a < 256 -> 0 <= b < 256 ->
            (a + 256 * b) mod 256 = a /\ ((a + 256 * b) / 256) mod 256 = b).
  { intros a b Ha Hb.
    rewrite (Z.mul_comm 256 b), Z.mod_add, Z.div_add by discriminate.
    rewrite (Z.mod_small a), (Z.div_small a) by lia.
    split; [reflexivity | apply Z.mod_small; lia]. }
  split; [|split].
  - rewrite !calculate_checksum_sum. f_equal. lia.
  - rewrite !calculate_checksum_sum.
    destruct (Hbytes len_lo len_hi Hlo Hhi) as [-> ->].
    destruct (Hbytes len_hi len_lo Hhi Hlo) as [-> ->].
    f_equal. lia.
  - rewrite <- (calculate_checksum_uint16 _ _ (n + 65536)).
    rewrite <- (calculate_checksum_uint16 _ _ n). unfold to_uint16.
    replace (n + 65536) with (n + 1 * 65536) by lia.
    now rewrite Z.mod_add by discriminate.
Qed.

(** X12 at length bytes 0x05 and 0x01: lengths 0x0105 and 0x0501. *)
Lemma calculate_checksum_blind_spots_witness :
  calculate_checksum 0x22 0x1C (0x05 + 256 * 0x01) =
  calculate_checksum 0x22 0x1C (0x01 + 256 * 0x05).
Proof.
  apply (calculate_checksum_blind_spots 0x22 0x1C 0x05 0x01 0);
    unfold is_uint8; lia.
Defined.

End BuildStructure.
